(** * MDM HR API: a shallow embedding of [app.py]

    The service is five FastAPI handlers over one SQL table, [employee].
    Each handler builds a statement with the SQLAlchemy query builder and
    hands it to the [databases] connection.  The handlers are embedded
    as computations in a small state-and-exception monad whose state is
    the content of the table; the connection's three entry points
    ([execute], [fetch_all], [fetch_one]) interpret the statements with
    the semantics of the default engine, SQLite
    ([DATABASE_URL] falls back to [sqlite:///./mdm_hr.db]), as reached
    through the sqlite3 driver and the column types of the schema. *)

From Stdlib Require Import ZArith List String Bool Lia.
From Stdlib Require Import Floats.PrimFloat Floats.SpecFloat Floats.FloatOps.
Import ListNotations.
Open Scope string_scope.
Open Scope list_scope.
Open Scope Z_scope.

(** ** Data model *)

(** [datetime.date]. *)
Record date := mkDate { year : Z; month : Z; day : Z }.

(** The pydantic model [EmployeeIn]: two required strings, every other
    field [Optional] with default [None]. *)
Record EmployeeIn := mkIn {
  employee_no : option string;
  first_name  : string;
  last_name   : string;
  email       : option string;
  phone       : option string;
  branch      : option string;
  job_title   : option string;
  salary      : option float;
  date_hired  : option date
}.

(** [class EmployeeOut(EmployeeIn)] adds [id]; the inherited fields are
    reached through the coercion.  A row of the table has the same ten
    columns, so [dict(row)] is a value of this type too. *)
Record EmployeeOut := mkOut {
  id  : Z;
  emp :> EmployeeIn
}.

(** The body returned by the delete handler, [{"deleted_id": emp_id}]. *)
Record DeletedAck := mkAck { deleted_id : Z }.

(** The table [employees], rows in storage (rowid) order. *)
Definition table := list EmployeeOut.

(** ** Exceptions and the handler monad *)

Inductive exn :=
| HTTPException (status_code : Z) (detail : string)
| IntegrityError (constraint : string)
| OverflowError (message : string).

Inductive result (A : Type) :=
| Return (a : A)
| Raise (e : exn).
Arguments Return {A} a.
Arguments Raise {A} e.

(** A computation reads and writes the table and returns or raises. *)
Definition M (A : Type) := table -> result A * table.

Definition ret {A} (a : A) : M A := fun st => (Return a, st).

Definition raise {A} (e : exn) : M A := fun st => (Raise e, st).

Definition bind {A B} (c : M A) (k : A -> M B) : M B :=
  fun st =>
    match c st with
    | (Return a, st') => k a st'
    | (Raise e, st') => (Raise e, st')
    end.

Notation "x <- c ;; k" := (bind c (fun x => k))
  (at level 61, c at next level, right associativity).

(** The status line FastAPI sends: the handler's value gives 200, an
    [HTTPException] gives its own status code, and any other exception
    leaving the handler is answered with 500 Internal Server Error. *)
Definition status {A} (r : result A) : Z :=
  match r with
  | Return _ => 200
  | Raise (HTTPException code _) => code
  | Raise (IntegrityError _) => 500
  | Raise (OverflowError _) => 500
  end.

(** A 4xx answer. *)
Definition client_error {A} (r : result A) : bool :=
  (400 <=? status r) && (status r <? 500).

(** ** The query builder *)

(** The two comparisons the handlers build: [employees.c.id == v] and
    [employees.c.branch == v].  As in SQL, a NULL column equals nothing. *)
Inductive clause :=
| id_eq (v : Z)
| branch_eq (v : string).

Definition matches (c : clause) (r : EmployeeOut) : bool :=
  match c with
  | id_eq v => id r =? v
  | branch_eq v =>
      match branch r with
      | Some b => String.eqb b v
      | None => false
      end
  end.

(** Successive [.where(...)] calls are joined by AND. *)
Definition sql_where (w : list clause) (r : EmployeeOut) : bool :=
  forallb (fun c => matches c r) w.

(** [employees.select()] with what [.where] and [.limit] recorded. *)
Record select := mkSelect {
  whereclause  : list clause;
  limit_clause : option Z
}.

Definition employees_select : select := mkSelect [] None.

Definition limit (n : Z) (q : select) : select :=
  mkSelect (whereclause q) (Some n).

Definition where_ (c : clause) (q : select) : select :=
  mkSelect (whereclause q ++ [c]) (limit_clause q).

(** [employees.insert().values(...)], [employees.update().where(...).values(...)]
    and [employees.delete().where(...)]. *)
Inductive dml :=
| Insert (values : EmployeeIn)
| Update (w : list clause) (values : EmployeeIn)
| Delete (w : list clause).

(** ** The storage engine

    The engine is not part of [app.py]; what follows is the behaviour of
    SQLite, reached through the sqlite3 driver, on the three statements
    and the one query shape the handlers issue against the schema declared
    in [app.py]: [id] INTEGER PRIMARY KEY, [employee_no] UNIQUE and
    nullable, [first_name] and [last_name] NOT NULL (which the type
    [EmployeeIn] already guarantees), [salary] NUMERIC.

    The table records the values the writes were given.  What becomes
    of a [salary] on its way through the NUMERIC column -- a NaN is stored
    as NULL, and a stored number comes back formatted to ten decimals -- is
    applied where a row is read out, in [dict].  Rowids are unbounded
    integers. *)

(** *** Integer parameters *)

(** The driver binds a Python [int] as a signed 64-bit integer. *)
Definition in_int64 (n : Z) : bool :=
  (- 2 ^ 63 <=? n) && (n <=? 2 ^ 63 - 1).

(** What the driver raises for any other [int]; no handler catches it. *)
Definition overflow : exn :=
  OverflowError "Python int too large to convert to SQLite INTEGER".

Definition rowid_in_use (x : Z) (t : table) : bool :=
  existsb (fun r => id r =? x) t.

(** An id parameter goes through when it is in range.  Rowids being
    unbounded here, an id that a row of the table carries goes through
    as well; in SQLite every rowid is in range, so on its tables this
    is the range test alone ([binds_id_range_only]). *)
Definition binds_id (x : Z) (t : table) : bool :=
  in_int64 x || rowid_in_use x t.

(** *** The NUMERIC column

    [salary] is a Python [float] on the way in.  On the way out the
    column type turns the stored number into [Decimal("%.10f" % value)],
    and the response model turns that into a [float] again. *)

(** [num / den] rounded to the nearest integer, ties to even. *)
Definition round_half_even (num den : Z) : Z :=
  let q := num / den in
  match 2 * (num mod den) ?= den with
  | Lt => q
  | Gt => q + 1
  | Eq => if Z.even q then q else q + 1
  end.

(** The digits of ["%.10f" % (m * 2^e)], as the integer [k] such that the
    text reads [k / 10^10]. *)
Definition format_10f (m : positive) (e : Z) : Z :=
  if 0 <=? e then Zpos m * 2 ^ e * 10 ^ 10
  else round_half_even (Zpos m * 10 ^ 10) (2 ^ (- e)).

(** [float(Decimal(text))]: the double nearest to [k / 10^10], with the
    sign of the text. *)
Definition decimal_float (s : bool) (k : Z) : float :=
  match k with
  | Zpos p => SF2Prim (SFdiv prec emax (S754_finite s p 0)
                             (S754_finite false (Z.to_pos (10 ^ 10)) 0))
  | _ => SF2Prim (S754_zero s)
  end.

(** A [salary] as it is read back: NULL for a NaN, which SQLite stores
    as NULL; otherwise the number rounded to ten decimals. *)
Definition numeric_read (x : float) : option float :=
  match Prim2SF x with
  | S754_nan => None
  | S754_zero _ | S754_infinity _ => Some x
  | S754_finite s m e => Some (decimal_float s (format_10f m e))
  end.

Definition read_salary (s : option float) : option float :=
  match s with
  | Some x => numeric_read x
  | None => None
  end.

(** *** Statements *)

(** Row [r] holds [s] in its [employee_no] column. *)
Definition holds_no (s : string) (r : EmployeeOut) : bool :=
  match employee_no r with
  | Some s' => String.eqb s' s
  | None => false
  end.

(** [unique=True] on [employee_no]: an inserted non-NULL value must not be
    held by any row; NULLs never collide. *)
Definition insert_conflict (v : EmployeeIn) (t : table) : bool :=
  match employee_no v with
  | Some s => existsb (holds_no s) t
  | None => false
  end.

(** The same index checked by UPDATE, row by row as each matching row is
    rewritten: one rewritten row collides with any untouched row holding
    the value, and a second rewritten row collides with the first. *)
Definition update_conflict (w : list clause) (v : EmployeeIn) (t : table) : bool :=
  match employee_no v with
  | Some s =>
      match filter (sql_where w) t with
      | [] => false
      | [_] => existsb (holds_no s) (filter (fun r => negb (sql_where w r)) t)
      | _ :: _ :: _ => true
      end
  | None => false
  end.

(** [id] is an INTEGER PRIMARY KEY, so it is the rowid: an insert that
    does not name it gets 1 in an empty table and otherwise one more than
    the largest rowid in use. *)
Definition next_rowid (t : table) : Z :=
  match t with
  | [] => 1
  | r :: t' => fold_right (fun r m => Z.max (id r) m) (id r) t' + 1
  end.

(** [.values] with the keywords of [emp.dict()] on a row: all nine
    columns of the input shape are written, [id] is not among them. *)
Definition set_values (v : EmployeeIn) (r : EmployeeOut) : EmployeeOut :=
  mkOut (id r) v.

(** LIMIT: a negative count means no upper bound. *)
Definition sql_limit (l : option Z) (rows : list EmployeeOut) : list EmployeeOut :=
  match l with
  | None => rows
  | Some n => if n <? 0 then rows else firstn (Z.to_nat n) rows
  end.

Definition unique_failed : exn :=
  IntegrityError "UNIQUE constraint failed: employee.employee_no".

(** The integer parameters of a WHERE clause and of a LIMIT go through
    the driver. *)
Definition binds (c : clause) (t : table) : bool :=
  match c with
  | id_eq v => binds_id v t
  | branch_eq _ => true
  end.

Definition binds_where (w : list clause) (t : table) : bool :=
  forallb (fun c => binds c t) w.

Definition binds_limit (l : option Z) : bool :=
  match l with
  | Some n => in_int64 n
  | None => true
  end.

(** [await database.execute(query)]: binds the parameters, runs the
    statement and returns the last inserted rowid for an insert, the number
    of rows touched otherwise.  A statement that fails, in the driver or
    in the engine, leaves the table as it was. *)
Definition database_execute (q : dml) : M Z :=
  fun t =>
    match q with
    | Insert v =>
        if insert_conflict v t then (Raise unique_failed, t)
        else (Return (next_rowid t), t ++ [mkOut (next_rowid t) v])
    | Update w v =>
        if negb (binds_where w t) then (Raise overflow, t)
        else if update_conflict w v t then (Raise unique_failed, t)
        else (Return (Z.of_nat (List.length (filter (sql_where w) t))),
              map (fun r => if sql_where w r then set_values v r else r) t)
    | Delete w =>
        if negb (binds_where w t) then (Raise overflow, t)
        else (Return (Z.of_nat (List.length (filter (sql_where w) t))),
              filter (fun r => negb (sql_where w r)) t)
    end.

Definition run_select (q : select) (t : table) : list EmployeeOut :=
  sql_limit (limit_clause q) (filter (sql_where (whereclause q)) t).

Definition binds_select (q : select) (t : table) : bool :=
  binds_where (whereclause q) t && binds_limit (limit_clause q).

(** [await database.fetch_all(q)]. *)
Definition database_fetch_all (q : select) : M (list EmployeeOut) :=
  fun t =>
    if binds_select q t then (Return (run_select q t), t)
    else (Raise overflow, t).

(** [await database.fetch_one(q)]: the first row of the result, or [None]. *)
Definition database_fetch_one (q : select) : M (option EmployeeOut) :=
  fun t =>
    if binds_select q t then (Return (hd_error (run_select q t)), t)
    else (Raise overflow, t).

(** [dict(row)]: the mapping of the ten columns, each value as its column
    type hands it out. *)
Definition dict (r : EmployeeOut) : EmployeeOut :=
  {| id := id r;
     emp := {| employee_no := employee_no r;
               first_name := first_name r;
               last_name := last_name r;
               email := email r;
               phone := phone r;
               branch := branch r;
               job_title := job_title r;
               salary := read_salary (salary r);
               date_hired := date_hired r |} |}.

(** ** The handlers *)

(** [if branch:] -- [None] and the empty string are both falsy. *)
Definition truthy (s : option string) : bool :=
  match s with
  | Some (String _ _) => true
  | _ => false
  end.

(** POST /api/employees *)
Definition create_employee (emp : EmployeeIn) : M EmployeeOut :=
  let query := Insert emp in
  emp_id <- database_execute query ;;
  ret {| id := emp_id; emp := emp |}.

(** GET /api/employees *)
Definition list_employees (branch : option string) (limit_ : Z)
  : M (list EmployeeOut) :=
  let q := limit limit_ employees_select in
  let q := match branch with
           | Some b => if truthy branch then where_ (branch_eq b) q else q
           | None => q
           end in
  rows <- database_fetch_all q ;;
  ret (map dict rows).

(** The limit the route passes on: the query parameter, or 100. *)
Definition effective_limit (limit_ : option Z) : Z :=
  match limit_ with Some n => n | None => 100 end.

(** The two query parameters as the route receives them: [branch]
    defaults to [None] and [limit] to 100. *)
Definition list_employees_request (branch : option string) (limit_ : option Z)
  : M (list EmployeeOut) :=
  list_employees branch (effective_limit limit_).

(** GET /api/employees/{emp_id} *)
Definition get_employee (emp_id : Z) : M EmployeeOut :=
  let q := where_ (id_eq emp_id) employees_select in
  row <- database_fetch_one q ;;
  match row with
  | None => raise (HTTPException 404 "Employee not found")
  | Some r => ret (dict r)
  end.

(** PUT /api/employees/{emp_id} *)
Definition update_employee (emp_id : Z) (emp : EmployeeIn) : M EmployeeOut :=
  let q := Update [id_eq emp_id] emp in
  _ <- database_execute q ;;
  let q2 := where_ (id_eq emp_id) employees_select in
  row <- database_fetch_one q2 ;;
  match row with
  | None => raise (HTTPException 404 "Employee not found after update")
  | Some r => ret (dict r)
  end.

(** DELETE /api/employees/{emp_id} *)
Definition delete_employee (emp_id : Z) : M DeletedAck :=
  let q := Delete [id_eq emp_id] in
  res <- database_execute q ;;
  ret {| deleted_id := emp_id |}.

(** ** Schema invariants *)

(** The non-NULL values of the [employee_no] column. *)
Definition employee_nos (t : table) : list string :=
  flat_map (fun r : EmployeeOut => match employee_no r with Some s => [s] | None => [] end) t.

(** What the schema and the rowid allocator maintain: [id] is a primary
    key, rowids handed out by the engine are positive, and the unique
    index on [employee_no] holds. *)
Record table_ok (t : table) : Prop := {
  ok_primary_key : NoDup (map id t);
  ok_rowid_pos   : Forall (fun r => 0 < id r) t;
  ok_unique_no   : NoDup (employee_nos t)
}.
Arguments ok_primary_key {t} _.
Arguments ok_rowid_pos {t} _.
Arguments ok_unique_no {t} _.

(** [unused_no v t]: the [employee_no] of [v], when it has one, is held
    by no row of [t]. *)
Definition unused_no (v : EmployeeIn) (t : table) : Prop :=
  forall s, employee_no v = Some s -> ~ In s (employee_nos t).

(** The tables the service can be in, starting from the empty table that
    [metadata.create_all] creates. *)
Inductive reachable : table -> Prop :=
| reach_empty : reachable []
| reach_create emp t : reachable t -> reachable (snd (create_employee emp t))
| reach_update x emp t : reachable t -> reachable (snd (update_employee x emp t))
| reach_delete x t : reachable t -> reachable (snd (delete_employee x t)).

(** ** Sample data *)

Definition ana : EmployeeIn :=
  mkIn None "Ana" "Cruz" None None (Some "North") None None None.

Definition ben : EmployeeIn :=
  mkIn (Some "E-001") "Ben" "Reyes" (Some "ben@mdm.example") (Some "555-0101")
       (Some "South") (Some "Clerk") (Some (18000.5%float))
       (Some (mkDate 2024 3 1)).

Definition cora : EmployeeIn :=
  mkIn (Some "E-002") "Cora" "Lim" None None (Some "North") (Some "Cashier")
       None None.

Definition dan : EmployeeIn :=
  mkIn None "Dan" "Uy" None None None None None None.



(** The first integer the driver refuses. *)
Definition too_large : Z := 2 ^ 63.

(** The table after creating [ana], [ben] and [cora] in turn. *)
Definition three_rows : table := [mkOut 1 ana; mkOut 2 ben; mkOut 3 cora].

(** ** Basic facts about the engine *)


Lemma id_dict (r : EmployeeOut) : id (dict r) = id r.
Proof. reflexivity. Qed.

Lemma in_map_dict (l : list EmployeeOut) (out : EmployeeOut) :
  In out (map dict l) <-> exists r, In r l /\ out = dict r.
Proof.
  rewrite in_map_iff; split; intros [r [H1 H2]]; exists r; auto.
Qed.

Lemma sql_where_id (x : Z) (r : EmployeeOut) :
  sql_where [id_eq x] r = (id r =? x).
Proof. unfold sql_where; simpl; apply andb_true_r. Qed.


Lemma filter_id_eq (x : Z) (t : table) :
  filter (sql_where [id_eq x]) t = filter (fun r => id r =? x) t.
Proof. apply filter_ext; intro r; apply sql_where_id. Qed.

Lemma filter_id_neq (x : Z) (t : table) :
  filter (fun r => negb (sql_where [id_eq x] r)) t
  = filter (fun r => negb (id r =? x)) t.
Proof. apply filter_ext; intro r; now rewrite sql_where_id. Qed.


Lemma hd_filter_none {A} (f : A -> bool) (l : list A) :
  hd_error (filter f l) = None <-> forall a, In a l -> f a = false.
Proof.
  split.
  - intros H a Hin.
    destruct (f a) eqn:Hf; [|reflexivity].
    assert (Hin' : In a (filter f l)) by (apply filter_In; auto).
    destruct (filter f l); [contradiction | discriminate].
  - intro H.
    destruct (filter f l) as [|a l'] eqn:E; [reflexivity|].
    assert (Hin : In a (filter f l)) by (rewrite E; now left).
    apply filter_In in Hin as [Hin Hf].
    rewrite (H a Hin) in Hf; discriminate.
Qed.

Lemma filter_none_nil {A} (f : A -> bool) (l : list A) :
  (forall a, In a l -> f a = false) -> filter f l = [].
Proof.
  intro H; induction l as [|a l IH]; simpl; [reflexivity|].
  rewrite (H a (or_introl eq_refl)).
  apply IH; intros b Hb; apply H; now right.
Qed.

Lemma filter_all_id {A} (f : A -> bool) (l : list A) :
  (forall a, In a l -> f a = true) -> filter f l = l.
Proof.
  intro H; induction l as [|a l IH]; simpl; [reflexivity|].
  rewrite (H a (or_introl eq_refl)).
  f_equal; apply IH; intros b Hb; apply H; now right.
Qed.

Lemma fold_max_init (l : table) (a : Z) :
  a <= fold_right (fun r m => Z.max (id r) m) a l.
Proof. induction l; simpl; lia. Qed.

Lemma fold_max_in (l : table) (a : Z) (r : EmployeeOut) :
  In r l -> id r <= fold_right (fun r m => Z.max (id r) m) a l.
Proof.
  induction l as [|r' l IH]; simpl; [contradiction|].
  intros [->|H]; [lia | specialize (IH H); lia].
Qed.

(** The allocated rowid lies above every rowid in use. *)
Lemma next_rowid_above (t : table) (r : EmployeeOut) :
  In r t -> id r < next_rowid t.
Proof.
  destruct t as [|r0 t]; simpl; [contradiction|].
  intros [->|H].
  - pose proof (fold_max_init t (id r)); lia.
  - pose proof (fold_max_in t (id r0) r H); lia.
Qed.

Lemma next_rowid_pos (t : table) :
  Forall (fun r => 0 < id r) t -> 0 < next_rowid t.
Proof.
  destruct t as [|r0 t]; simpl; [lia|].
  intro H; inversion H; subst.
  pose proof (fold_max_init t (id r0)); lia.
Qed.


Lemma update_map_frame (x : Z) (e : EmployeeIn) (t : table) :
  filter (fun r => negb (id r =? x))
         (map (fun r => if id r =? x then set_values e r else r) t)
  = filter (fun r => negb (id r =? x)) t.
Proof.
  induction t as [|r t IH]; simpl; [reflexivity|].
  destruct (id r =? x) eqn:E; simpl; rewrite E; simpl; now rewrite IH.
Qed.

Lemma update_map_missing (x : Z) (e : EmployeeIn) (t : table) :
  (forall r, In r t -> id r <> x) ->
  map (fun r => if id r =? x then set_values e r else r) t = t.
Proof.
  intro H; induction t as [|r t IH]; simpl; [reflexivity|].
  assert (E : (id r =? x) = false) by (apply Z.eqb_neq, H; now left).
  rewrite E; f_equal; apply IH; intros r' Hr'; apply H; now right.
Qed.

Lemma update_conflict_missing (x : Z) (e : EmployeeIn) (t : table) :
  (forall r, In r t -> id r <> x) -> update_conflict [id_eq x] e t = false.
Proof.
  intro H; unfold update_conflict.
  destruct (employee_no e); [|reflexivity].
  rewrite filter_id_eq, filter_none_nil; [reflexivity|].
  intros r Hr; apply Z.eqb_neq; now apply H.
Qed.

Lemma filter_primary_key (t : table) (r : EmployeeOut) :
  NoDup (map id t) -> In r t -> filter (fun r' => id r' =? id r) t = [r].
Proof.
  induction t as [|a t IH]; simpl; [contradiction|].
  intros Hnd Hin; inversion Hnd as [|? ? Hnot Hnd']; subst.
  destruct Hin as [->|Hin].
  - rewrite Z.eqb_refl; f_equal.
    apply filter_none_nil; intros r' Hr'; apply Z.eqb_neq.
    intro E; apply Hnot; rewrite <- E; now apply in_map.
  - assert (E : (id a =? id r) = false).
    { apply Z.eqb_neq; intro E; apply Hnot; rewrite E; now apply in_map. }
    rewrite E; now apply IH.
Qed.

Lemma update_map_hits (x : Z) (e : EmployeeIn) (t : table) :
  filter (fun r => id r =? x)
         (map (fun r => if id r =? x then set_values e r else r) t)
  = map (set_values e) (filter (fun r => id r =? x) t).
Proof.
  induction t as [|r t IH]; simpl; [reflexivity|].
  destruct (id r =? x) eqn:E; simpl; rewrite E; simpl; now rewrite IH.
Qed.

(** ** Parameters the driver takes *)

Lemma in_int64_iff (n : Z) :
  in_int64 n = true <-> - 2 ^ 63 <= n <= 2 ^ 63 - 1.
Proof. unfold in_int64; rewrite andb_true_iff, !Z.leb_le; tauto. Qed.

Lemma rowid_in_use_iff (x : Z) (t : table) :
  rowid_in_use x t = true <-> exists r, In r t /\ id r = x.
Proof.
  unfold rowid_in_use; rewrite existsb_exists.
  split; intros [r [Hr Hx]]; exists r; split; auto; now apply Z.eqb_eq.
Qed.

Lemma rowid_not_in_use (x : Z) (t : table) :
  rowid_in_use x t = false <-> forall r, In r t -> id r <> x.
Proof.
  rewrite <- not_true_iff_false, rowid_in_use_iff; split.
  - intros H r Hr Hx; apply H; now exists r.
  - intros H [r [Hr Hx]]; now apply (H r).
Qed.

Lemma binds_where_id (x : Z) (t : table) :
  binds_where [id_eq x] t = binds_id x t.
Proof. unfold binds_where; simpl; apply andb_true_r. Qed.

Lemma binds_id_in_range (x : Z) (t : table) :
  in_int64 x = true -> binds_id x t = true.
Proof. intro H; unfold binds_id; now rewrite H. Qed.

Lemma binds_id_in_use (x : Z) (t : table) (r : EmployeeOut) :
  In r t -> id r = x -> binds_id x t = true.
Proof.
  intros Hr Hx; unfold binds_id.
  rewrite (proj2 (rowid_in_use_iff x t)); [apply orb_true_r | now exists r].
Qed.

Lemma binds_id_out_of_range (x : Z) (t : table) :
  in_int64 x = false -> (forall r, In r t -> id r <> x) -> binds_id x t = false.
Proof.
  intros Hx Hno; unfold binds_id.
  now rewrite Hx, (proj2 (rowid_not_in_use x t) Hno).
Qed.

(** On a table whose rowids are all within the range, as SQLite's are,
    an id parameter goes through exactly when it is within the range. *)
Lemma binds_id_range_only (x : Z) (t : table) :
  Forall (fun r => in_int64 (id r) = true) t -> binds_id x t = in_int64 x.
Proof.
  intro Hall; unfold binds_id.
  destruct (in_int64 x) eqn:Hx; [reflexivity|]; cbn [orb].
  apply rowid_not_in_use; intros r Hr Hid.
  pose proof (proj1 (Forall_forall _ _) Hall r Hr) as Hin; cbv beta in Hin.
  rewrite Hid in Hin; congruence.
Qed.

Lemma rowid_in_use_update (x y : Z) (e : EmployeeIn) (t : table) :
  rowid_in_use y (map (fun r => if id r =? x then set_values e r else r) t)
  = rowid_in_use y t.
Proof.
  unfold rowid_in_use; induction t as [|r t IH]; [reflexivity|].
  cbn [map existsb]; rewrite IH; f_equal.
  now destruct (id r =? x).
Qed.

Lemma rowid_in_use_delete (x y : Z) (t : table) :
  y <> x ->
  rowid_in_use y (filter (fun r => negb (id r =? x)) t) = rowid_in_use y t.
Proof.
  intro Hne; unfold rowid_in_use; induction t as [|r t IH]; [reflexivity|].
  cbn [filter existsb].
  destruct (id r =? x) eqn:Ex; cbn [negb existsb]; rewrite IH; [|reflexivity].
  apply Z.eqb_eq in Ex.
  assert (Ey : (id r =? y) = false) by (apply Z.eqb_neq; lia).
  now rewrite Ey.
Qed.

Lemma binds_id_update (x y : Z) (e : EmployeeIn) (t : table) :
  binds_id y (map (fun r => if id r =? x then set_values e r else r) t)
  = binds_id y t.
Proof. unfold binds_id; now rewrite rowid_in_use_update. Qed.

(** ** The unique index *)

Lemma in_employee_nos (s : string) (t : table) :
  In s (employee_nos t) <-> exists r, In r t /\ employee_no r = Some s.
Proof.
  unfold employee_nos; rewrite in_flat_map; split.
  - intros [r [Hr Hs]]; exists r; split; [assumption|].
    destruct (employee_no r); simpl in Hs; [|contradiction].
    destruct Hs as [->|[]]; reflexivity.
  - intros [r [Hr Hs]]; exists r; split; [assumption|].
    rewrite Hs; now left.
Qed.

Lemma holds_no_iff (s : string) (r : EmployeeOut) :
  holds_no s r = true <-> employee_no r = Some s.
Proof.
  unfold holds_no; destruct (employee_no r) as [s'|]; split; intro H;
    try discriminate.
  - apply String.eqb_eq in H; now subst.
  - injection H as ->; apply String.eqb_refl.
Qed.

Lemma existsb_holds_no (s : string) (t : table) :
  existsb (holds_no s) t = true <-> In s (employee_nos t).
Proof.
  rewrite existsb_exists, in_employee_nos.
  split; intros [r [Hr Hs]]; exists r; split; auto; now apply holds_no_iff.
Qed.

Lemma insert_conflict_false (e : EmployeeIn) (t : table) :
  insert_conflict e t = false <-> unused_no e t.
Proof.
  unfold insert_conflict, unused_no.
  destruct (employee_no e) as [s|].
  - rewrite <- not_true_iff_false, existsb_holds_no; split.
    + intros H s' Hs'; injection Hs' as <-; exact H.
    + intro H; now apply H.
  - split; [discriminate | reflexivity].
Qed.

(** ** The handlers, unfolded *)

Lemma get_employee_eq (x : Z) (st : table) :
  get_employee x st =
  if binds_id x st then
    match hd_error (filter (fun r => id r =? x) st) with
    | Some r => (Return (dict r), st)
    | None => (Raise (HTTPException 404 "Employee not found"), st)
    end
  else (Raise overflow, st).
Proof.
  unfold get_employee, bind, database_fetch_one, binds_select, run_select.
  cbn [whereclause limit_clause where_ employees_select app sql_limit
       binds_limit].
  rewrite binds_where_id, andb_true_r, filter_id_eq.
  destruct (binds_id x st); [|reflexivity].
  now destruct (hd_error _).
Qed.

Lemma delete_employee_eq (x : Z) (st : table) :
  delete_employee x st =
  if binds_id x st
  then (Return {| deleted_id := x |}, filter (fun r => negb (id r =? x)) st)
  else (Raise overflow, st).
Proof.
  unfold delete_employee, bind, database_execute, ret.
  rewrite binds_where_id, filter_id_neq.
  now destruct (binds_id x st).
Qed.

Lemma create_employee_eq (e : EmployeeIn) (st : table) :
  create_employee e st =
  if insert_conflict e st then (Raise unique_failed, st)
  else (Return (mkOut (next_rowid st) e), st ++ [mkOut (next_rowid st) e]).
Proof.
  unfold create_employee, bind, database_execute, ret.
  now destruct (insert_conflict e st).
Qed.

Lemma update_employee_eq (x : Z) (e : EmployeeIn) (st : table) :
  update_employee x e st =
  if binds_id x st then
    if update_conflict [id_eq x] e st then (Raise unique_failed, st)
    else
      let st' := map (fun r => if id r =? x then set_values e r else r) st in
      match hd_error (filter (fun r => id r =? x) st') with
      | Some r => (Return (dict r), st')
      | None => (Raise (HTTPException 404 "Employee not found after update"), st')
      end
  else (Raise overflow, st).
Proof.
  unfold update_employee, bind, database_execute, database_fetch_one,
    binds_select, run_select.
  rewrite binds_where_id.
  destruct (binds_id x st) eqn:Hb; [|reflexivity]; cbn [negb].
  destruct (update_conflict [id_eq x] e st); [reflexivity|].
  cbn [whereclause limit_clause where_ employees_select app sql_limit
       binds_limit].
  rewrite (map_ext (fun r => if sql_where [id_eq x] r then set_values e r else r)
                   (fun r => if id r =? x then set_values e r else r))
    by (intro r; now rewrite sql_where_id).
  rewrite binds_where_id, binds_id_update, Hb, filter_id_eq; cbv zeta.
  now destruct (hd_error _).
Qed.

Lemma update_employee_snd (x : Z) (e : EmployeeIn) (st : table) :
  snd (update_employee x e st)
  = if binds_id x st then
      if update_conflict [id_eq x] e st then st
      else map (fun r => if id r =? x then set_values e r else r) st
    else st.
Proof.
  rewrite update_employee_eq.
  destruct (binds_id x st); [|reflexivity].
  destruct (update_conflict [id_eq x] e st); [reflexivity|].
  cbv zeta; now destruct (hd_error _).
Qed.

Lemma delete_employee_snd (x : Z) (st : table) :
  snd (delete_employee x st)
  = if binds_id x st then filter (fun r => negb (id r =? x)) st else st.
Proof. rewrite delete_employee_eq; now destruct (binds_id x st). Qed.


Lemma in_firstn {A} (n : nat) (l : list A) (a : A) :
  In a (firstn n l) -> In a l.
Proof.
  revert l; induction n as [|n IH]; intros [|b l]; simpl; try contradiction.
  intros [->|H]; [now left | right; now apply IH].
Qed.

(** The WHERE clause the list handler ends up with, and its answer. *)
Lemma list_employees_eq (b : option string) (n : Z) (st : table) :
  list_employees b n st
  = if in_int64 n then
      (Return (map dict (sql_limit (Some n)
                 (filter (sql_where match b with
                                    | Some (String c s) => [branch_eq (String c s)]
                                    | _ => []
                                    end) st))), st)
    else (Raise overflow, st).
Proof.
  unfold list_employees, bind, database_fetch_all, binds_select, run_select, ret.
  destruct b as [[|c s]|];
    cbn [truthy whereclause limit_clause limit where_ employees_select app
         binds_where forallb binds binds_limit andb];
    now destruct (in_int64 n).
Qed.



Lemma in_sql_limit (l : option Z) (rows : list EmployeeOut) (r : EmployeeOut) :
  In r (sql_limit l rows) -> In r rows.
Proof.
  unfold sql_limit; destruct l as [n|]; [|auto].
  destruct (n <? 0); [auto | apply in_firstn].
Qed.


(** ** The schema invariants are maintained *)

Lemma employee_nos_cons (a : EmployeeOut) (t : table) :
  NoDup (employee_nos (a :: t))
  <-> (forall s, employee_no a = Some s -> ~ In s (employee_nos t))
      /\ NoDup (employee_nos t).
Proof.
  unfold employee_nos; simpl.
  destruct (employee_no a) as [s|]; simpl.
  - rewrite NoDup_cons_iff; split.
    + intros [Hn Hd]; split; [|assumption].
      intros s' Hs'; now injection Hs' as <-.
    + intros [Hn Hd]; split; [now apply Hn | assumption].
  - split; [intro H; split; [discriminate | assumption] | tauto].
Qed.

Lemma in_employee_nos_filter (f : EmployeeOut -> bool) (s : string) (t : table) :
  In s (employee_nos (filter f t)) -> In s (employee_nos t).
Proof.
  rewrite !in_employee_nos; intros [r [Hr Hs]].
  exists r; split; [|assumption].
  now apply filter_In in Hr.
Qed.

Lemma in_employee_nos_update (x : Z) (e : EmployeeIn) (s : string) (t : table) :
  In s (employee_nos (map (fun r => if id r =? x then set_values e r else r) t)) ->
  In s (employee_nos (filter (fun r => negb (id r =? x)) t))
  \/ employee_no e = Some s.
Proof.
  rewrite !in_employee_nos; intros [r' [Hr' Hs]].
  apply in_map_iff in Hr' as [r [<- Hr]].
  destruct (id r =? x) eqn:E.
  - right; exact Hs.
  - left; exists r; split; [|assumption].
    apply filter_In; split; [assumption | now rewrite E].
Qed.

Lemma filter_keeps_ok (f : EmployeeOut -> bool) (t : table) :
  table_ok t -> table_ok (filter f t).
Proof.
  intros [Hpk Hpos Huq]; split.
  - clear Hpos Huq; induction t as [|a t IH]; simpl; [constructor|].
    inversion Hpk as [|? ? Hnot Hnd]; subst.
    destruct (f a); simpl; [|now apply IH].
    constructor; [|now apply IH].
    intro Hin; apply Hnot.
    apply in_map_iff in Hin as [r [Hid Hr]].
    apply filter_In in Hr as [Hr _].
    rewrite <- Hid; now apply in_map.
  - apply Forall_forall; intros r Hr.
    apply filter_In in Hr as [Hr _].
    now apply (proj1 (Forall_forall _ _) Hpos).
  - clear Hpk Hpos; induction t as [|a t IH]; simpl; [constructor|].
    apply employee_nos_cons in Huq as [Hn Hd].
    destruct (f a); [|now apply IH].
    apply employee_nos_cons; split; [|now apply IH].
    intros s Hs Hin; apply (Hn s Hs).
    now apply in_employee_nos_filter in Hin.
Qed.

Lemma insert_keeps_ok (e : EmployeeIn) (t : table) :
  table_ok t -> unused_no e t -> table_ok (t ++ [mkOut (next_rowid t) e]).
Proof.
  intros [Hpk Hpos Huq] Hfree; split.
  - rewrite map_app; apply NoDup_app; [assumption | repeat constructor; auto |].
    intros i Hi [<-|[]]; simpl in Hi.
    apply in_map_iff in Hi as [r [Hid Hr]].
    pose proof (next_rowid_above t r Hr); lia.
  - apply Forall_app; split; [assumption|].
    repeat constructor; simpl; now apply next_rowid_pos.
  - unfold employee_nos; rewrite flat_map_app; fold (employee_nos t).
    apply NoDup_app; [assumption | |].
    + simpl; destruct (employee_no e); repeat constructor; auto.
    + intros s Hs Hin; simpl in Hin.
      destruct (employee_no e) as [s'|] eqn:He; simpl in Hin; [|contradiction].
      destruct Hin as [<-|[]]; now apply (Hfree s').
Qed.

Lemma update_map_keeps_unique (x : Z) (e : EmployeeIn) (t : table) :
  NoDup (map id t) -> NoDup (employee_nos t) ->
  unused_no e (filter (fun r => negb (id r =? x)) t) ->
  NoDup (employee_nos (map (fun r => if id r =? x then set_values e r else r) t)).
Proof.
  induction t as [|a t IH]; [intros; constructor|].
  intros Hpk Huq Hfree.
  inversion Hpk as [|? ? Hnot Hnd]; subst.
  apply employee_nos_cons in Huq as [Hn Hd].
  cbn [map]; apply employee_nos_cons; split.
  - intros s Hs Hin.
    destruct (id a =? x) eqn:E.
    + apply Z.eqb_eq in E.
      assert (Hmiss : forall r, In r t -> id r <> x).
      { intros r Hr Hx; apply Hnot; rewrite E, <- Hx; now apply in_map. }
      rewrite update_map_missing in Hin by assumption.
      apply (Hfree s Hs); cbn [filter].
      assert (E' : (id a =? x) = true) by now apply Z.eqb_eq.
      rewrite E'; cbn [negb].
      rewrite filter_all_id; [assumption|].
      intros r Hr; apply negb_true_iff, Z.eqb_neq; now apply Hmiss.
    + apply in_employee_nos_update in Hin as [Hin|He].
      * apply (Hn s Hs); now apply in_employee_nos_filter in Hin.
      * apply (Hfree s He); cbn [filter]; rewrite E; cbn [negb].
        apply in_employee_nos; exists a; split; [now left | assumption].
  - apply IH; auto.
    intros s Hs Hin; apply (Hfree s Hs); cbn [filter].
    destruct (negb (id a =? x)); [|assumption].
    apply in_employee_nos in Hin as [r [Hr Hrs]].
    apply in_employee_nos; exists r; split; [now right | assumption].
Qed.

Lemma update_conflict_false (x : Z) (e : EmployeeIn) (t : table) :
  update_conflict [id_eq x] e t = false ->
  (forall r, In r t -> id r <> x)
  \/ unused_no e (filter (fun r => negb (id r =? x)) t).
Proof.
  unfold update_conflict, unused_no.
  destruct (employee_no e) as [s|]; [|intros _; right; discriminate].
  rewrite filter_id_eq, filter_id_neq.
  destruct (filter (fun r => id r =? x) t) as [|r [|r' l]] eqn:E.
  - intros _; left; intros r Hr.
    apply Z.eqb_neq.
    apply (proj1 (hd_filter_none (fun r => id r =? x) t)); [|assumption].
    now rewrite E.
  - intro H; right; intros s' Hs'; injection Hs' as <-.
    rewrite <- existsb_holds_no; now rewrite H.
  - discriminate.
Qed.

Lemma create_keeps_ok (e : EmployeeIn) (t : table) :
  table_ok t -> table_ok (snd (create_employee e t)).
Proof.
  intro Hok; rewrite create_employee_eq.
  destruct (insert_conflict e t) eqn:E; [assumption|].
  apply insert_keeps_ok; [assumption | now apply insert_conflict_false].
Qed.

Lemma update_keeps_ok (x : Z) (e : EmployeeIn) (t : table) :
  table_ok t -> table_ok (snd (update_employee x e t)).
Proof.
  intro Hok; rewrite update_employee_snd.
  destruct (binds_id x t); [|assumption].
  destruct (update_conflict [id_eq x] e t) eqn:E; [assumption|].
  apply update_conflict_false in E as [Hmiss|Hfree].
  - now rewrite update_map_missing.
  - destruct Hok as [Hpk Hpos Huq]; split.
    + rewrite map_map.
      rewrite (map_ext _ id); [assumption|].
      intro r; now destruct (id r =? x).
    + apply Forall_forall; intros r' Hr'.
      apply in_map_iff in Hr' as [r [<- Hr]].
      pose proof (proj1 (Forall_forall _ _) Hpos r Hr).
      now destruct (id r =? x).
    + now apply update_map_keeps_unique.
Qed.

Lemma delete_keeps_ok (x : Z) (t : table) :
  table_ok t -> table_ok (snd (delete_employee x t)).
Proof.
  intro Hok; rewrite delete_employee_snd.
  destruct (binds_id x t); [now apply filter_keeps_ok | assumption].
Qed.

(** Every table the service can be in satisfies the schema. *)
Lemma reachable_ok (t : table) : reachable t -> table_ok t.
Proof.
  induction 1 as [|e t _ IH|x e t _ IH|x t _ IH].
  - split; constructor.
  - now apply create_keeps_ok.
  - now apply update_keeps_ok.
  - now apply delete_keeps_ok.
Qed.

(** [three_rows] is a table the service gets to: three creates from the
    empty table. *)
Example three_rows_created :
  snd (create_employee cora (snd (create_employee ben
        (snd (create_employee ana []))))) = three_rows.
Proof. reflexivity. Qed.

(** The walk through the service given with its contract: create Ana,
    list branch North, delete 1, get 1. *)
Example scenario :
  let '(r1, t1) := create_employee ana [] in
  let '(r2, t2) := list_employees_request (Some "North") None t1 in
  let '(r3, t3) := delete_employee 1 t2 in
  let '(r4, t4) := get_employee 1 t3 in
  r1 = Return (mkOut 1 ana)
  /\ r2 = Return [mkOut 1 ana]
  /\ r3 = Return {| deleted_id := 1 |}
  /\ status r4 = 404
  /\ t4 = [].
Proof. repeat split. Qed.

Lemma three_rows_reachable : reachable three_rows.
Proof.
  rewrite <- three_rows_created.
  repeat apply reach_create; apply reach_empty.
Qed.

Lemma three_rows_ok : table_ok three_rows.
Proof. apply reachable_ok, three_rows_reachable. Qed.

(** ** Create *)

(** C1, as the code has it: when a row already holds the [employee_no] of
    the input, create adds no row and the engine's integrity error leaves
    the handler uncaught, which the caller sees as a 500, not as a 4xx. *)
Theorem create_employee_duplicate (e : EmployeeIn) (st : table)
        (r : EmployeeOut) (s : string) :
  In r st -> employee_no r = Some s -> employee_no e = Some s ->
  create_employee e st = (Raise unique_failed, st)
  /\ status (fst (create_employee e st)) = 500
  /\ client_error (fst (create_employee e st)) = false.
Proof.
  intros Hin Hr He.
  assert (E : create_employee e st = (Raise unique_failed, st)).
  { rewrite create_employee_eq.
    unfold insert_conflict; rewrite He.
    rewrite (proj2 (existsb_holds_no s st)); [reflexivity|].
    apply in_employee_nos; now exists r. }
  now rewrite E.
Qed.

Lemma create_employee_duplicate_witness :
  create_employee ben three_rows = (Raise unique_failed, three_rows)
  /\ status (fst (create_employee ben three_rows)) = 500
  /\ client_error (fst (create_employee ben three_rows)) = false.
Proof.
  apply (create_employee_duplicate ben three_rows (mkOut 2 ben) "E-001").
  - right; now left.
  - reflexivity.
  - reflexivity.
Defined.

(** C1 as stated fails: [three_rows] holds "E-001" in row 2, creating
    [ben] with the same number is not answered with a client error. *)
Lemma create_employee_duplicate_counterexample :
  In (mkOut 2 ben) three_rows
  /\ employee_no (mkOut 2 ben) = employee_no ben
  /\ employee_no ben = Some "E-001"
  /\ client_error (fst (create_employee ben three_rows)) <> true.
Proof.
  repeat split; [right; now left | discriminate].
Qed.

(** C8, as the code has it: on a table that satisfies the schema, an input
    whose [employee_no] is null or unused is inserted as one new row at the
    end of the table, under a positive rowid that no row had, and the answer
    is that row: the rowid together with the nine fields as supplied. *)
Theorem create_employee_fresh (e : EmployeeIn) (st : table) :
  table_ok st -> unused_no e st ->
  exists out,
    create_employee e st = (Return out, st ++ [out])
    /\ status (fst (create_employee e st)) = 200
    /\ emp out = e
    /\ 0 < id out
    /\ (forall r, In r st -> id r <> id out).
Proof.
  intros Hok Hfree.
  assert (E : create_employee e st
              = (Return (mkOut (next_rowid st) e),
                 st ++ [mkOut (next_rowid st) e])).
  { rewrite create_employee_eq.
    now rewrite (proj2 (insert_conflict_false e st) Hfree). }
  exists (mkOut (next_rowid st) e); rewrite E; simpl.
  repeat split; auto.
  - apply next_rowid_pos, Hok.
  - intros r Hr; pose proof (next_rowid_above st r Hr); lia.
Qed.

Lemma create_employee_fresh_witness :
  exists out,
    create_employee dan three_rows = (Return out, three_rows ++ [out])
    /\ status (fst (create_employee dan three_rows)) = 200
    /\ emp out = dan
    /\ 0 < id out
    /\ (forall r, In r three_rows -> id r <> id out).
Proof.
  apply (create_employee_fresh dan three_rows).
  - exact three_rows_ok.
  - intros s Hs; discriminate Hs.
Defined.

(** C8 as stated fails: [ben] is a valid input, yet on [three_rows], where
    row 2 holds that [employee_no], create raises and inserts nothing. *)
Lemma create_employee_fresh_counterexample :
  table_ok three_rows
  /\ fst (create_employee ben three_rows) = Raise unique_failed
  /\ snd (create_employee ben three_rows) = three_rows.
Proof.
  split; [exact three_rows_ok | split; reflexivity].
Qed.

Lemma create_employee_inv (e : EmployeeIn) (st st' : table) (out : EmployeeOut) :
  create_employee e st = (Return out, st') ->
  insert_conflict e st = false
  /\ out = mkOut (next_rowid st) e
  /\ st' = st ++ [out].
Proof.
  rewrite create_employee_eq.
  destruct (insert_conflict e st); [discriminate|].
  intro H; injection H as <- <-; auto.
Qed.

Lemma next_rowid_fresh (t : table) (r : EmployeeOut) :
  In r t -> id r <> next_rowid t.
Proof. intro Hr; pose proof (next_rowid_above t r Hr); lia. Qed.





(** ** Get by id *)




(** ** List *)





(** ** Update on an existing id *)

Lemma unique_no_holder (t : table) (r r' : EmployeeOut) (s : string) :
  NoDup (employee_nos t) -> In r t -> In r' t ->
  employee_no r = Some s -> employee_no r' = Some s -> r = r'.
Proof.
  induction t as [|a t IH]; [contradiction|].
  intros Hnd Hr Hr' Hs Hs'.
  apply employee_nos_cons in Hnd as [Hn Hd].
  destruct Hr as [->|Hr], Hr' as [->|Hr'].
  - reflexivity.
  - exfalso; apply (Hn s Hs); apply in_employee_nos; now exists r'.
  - exfalso; apply (Hn s Hs'); apply in_employee_nos; now exists r.
  - now apply IH.
Qed.

Lemma unused_besides_holder (e : EmployeeIn) (t : table) (r : EmployeeOut) :
  NoDup (employee_nos t) -> In r t -> employee_no e = employee_no r ->
  unused_no e (filter (fun r' => negb (id r' =? id r)) t).
Proof.
  intros Hnd Hr He s Hs Hin.
  apply in_employee_nos in Hin as [r' [Hr' Hs']].
  apply filter_In in Hr' as [Hr' Hne].
  apply negb_true_iff, Z.eqb_neq in Hne.
  apply Hne; f_equal.
  apply (unique_no_holder t r' r s); auto; congruence.
Qed.

Lemma hd_map_set_values (x : Z) (e : EmployeeIn) (t : table) :
  hd_error (map (set_values e) (filter (fun r => id r =? x) t))
  = match hd_error (filter (fun r => id r =? x) t) with
    | Some _ => Some (mkOut x e)
    | None => None
    end.
Proof.
  destruct (filter (fun r => id r =? x) t) as [|r l] eqn:E; [reflexivity|].
  assert (Hr : In r (filter (fun r => id r =? x) t)) by (rewrite E; now left).
  apply filter_In in Hr as [_ Hr]; apply Z.eqb_eq in Hr.
  subst x; reflexivity.
Qed.





(** ** Update on a missing id *)

(** C4, as the code has it: when no row has the requested id and the id is
    within the signed 64-bit range, update answers 404 and the table is
    exactly what it was, so no row was created. *)
Theorem update_employee_missing (x : Z) (e : EmployeeIn) (st : table) :
  in_int64 x = true ->
  (forall r, In r st -> id r <> x) ->
  update_employee x e st
  = (Raise (HTTPException 404 "Employee not found after update"), st)
  /\ status (fst (update_employee x e st)) = 404.
Proof.
  intros Hx H.
  assert (E : update_employee x e st
              = (Raise (HTTPException 404 "Employee not found after update"), st)).
  { rewrite update_employee_eq, (binds_id_in_range x st Hx).
    rewrite update_conflict_missing by assumption.
    cbv zeta; rewrite update_map_missing by assumption.
    rewrite (proj2 (hd_filter_none _ _)); [reflexivity|].
    intros r Hr; apply Z.eqb_neq; now apply H. }
  now rewrite E.
Qed.

Lemma update_employee_missing_witness :
  update_employee 7 ana three_rows
  = (Raise (HTTPException 404 "Employee not found after update"), three_rows)
  /\ status (fst (update_employee 7 ana three_rows)) = 404.
Proof.
  apply (update_employee_missing 7 ana three_rows).
  - reflexivity.
  - intros r Hr; simpl in Hr.
    destruct Hr as [<-|[<-|[<-|[]]]]; simpl; lia.
Defined.

(** C4 as stated fails: no row of [three_rows] has the id 2^63, yet update
    does not signal not-found: the driver refuses the integer and the
    caller gets a 500.  The table is unchanged all the same. *)
Lemma update_employee_missing_counterexample :
  rowid_in_use too_large three_rows = false
  /\ update_employee too_large ana three_rows = (Raise overflow, three_rows)
  /\ status (fst (update_employee too_large ana three_rows)) = 500
  /\ status (fst (update_employee too_large ana three_rows)) <> 404.
Proof.
  split; [reflexivity|].
  split; [reflexivity|].
  split; [reflexivity | discriminate].
Qed.

(** ** Delete *)

(** C7, as the code has it: for an id within the signed 64-bit range,
    delete keeps exactly the rows whose id differs from the requested one,
    always answers 200 with [{deleted_id: x}] and never 404, and a second
    delete of the same id gives the same acknowledgement and leaves the
    table as the first delete left it. *)
Theorem delete_employee_spec (x : Z) (st : table) :
  in_int64 x = true ->
  fst (delete_employee x st) = Return {| deleted_id := x |}
  /\ status (fst (delete_employee x st)) = 200
  /\ snd (delete_employee x st) = filter (fun r => negb (id r =? x)) st
  /\ (forall r, In r (snd (delete_employee x st)) <-> In r st /\ id r <> x)
  /\ delete_employee x (snd (delete_employee x st))
     = (Return {| deleted_id := x |}, snd (delete_employee x st)).
Proof.
  intro Hx.
  rewrite !delete_employee_eq, (binds_id_in_range x st Hx); cbn [fst snd].
  split; [reflexivity|].
  split; [reflexivity|].
  split; [reflexivity|].
  split.
  - intro r; rewrite filter_In, negb_true_iff, Z.eqb_neq; tauto.
  - rewrite (binds_id_in_range x _ Hx).
    f_equal; apply filter_all_id; intros r Hr.
    now apply filter_In in Hr.
Qed.

Lemma delete_employee_spec_witness :
  fst (delete_employee 2 three_rows) = Return {| deleted_id := 2 |}
  /\ status (fst (delete_employee 2 three_rows)) = 200
  /\ snd (delete_employee 2 three_rows)
     = filter (fun r => negb (id r =? 2)) three_rows
  /\ (forall r, In r (snd (delete_employee 2 three_rows))
                <-> In r three_rows /\ id r <> 2)
  /\ delete_employee 2 (snd (delete_employee 2 three_rows))
     = (Return {| deleted_id := 2 |}, snd (delete_employee 2 three_rows)).
Proof.
  apply (delete_employee_spec 2 three_rows).
  reflexivity.
Defined.

(** C7 as stated fails: for the id 2^63 delete returns no acknowledgement:
    the driver refuses the integer and the caller gets a 500. *)
Lemma delete_employee_spec_counterexample :
  fst (delete_employee too_large three_rows) = Raise overflow
  /\ fst (delete_employee too_large three_rows)
     <> Return {| deleted_id := too_large |}
  /\ status (fst (delete_employee too_large three_rows)) = 500.
Proof.
  split; [reflexivity|].
  split; [discriminate | reflexivity].
Qed.

(** ** Frame *)

(** C10: after update and after delete of id [x], the rows whose id is
    not [x] are the same rows, in the same order, as before -- whether the
    statement touched a row, found none, or was rejected. *)
Theorem update_delete_frame (x : Z) (e : EmployeeIn) (st : table) :
  filter (fun r => negb (id r =? x)) (snd (update_employee x e st))
  = filter (fun r => negb (id r =? x)) st
  /\ filter (fun r => negb (id r =? x)) (snd (delete_employee x st))
     = filter (fun r => negb (id r =? x)) st.
Proof.
  split.
  - rewrite update_employee_snd.
    destruct (binds_id x st); [|reflexivity].
    destruct (update_conflict [id_eq x] e st); [reflexivity|].
    apply update_map_frame.
  - rewrite delete_employee_snd.
    destruct (binds_id x st); [|reflexivity].
    apply filter_all_id; intros r Hr.
    now apply filter_In in Hr.
Qed.

(** ** How the handlers compose *)

Lemma filter_other_ids (x : Z) (t : table) :
  (forall r, In r t -> id r <> x) ->
  filter (fun r => negb (id r =? x)) t = t.
Proof.
  intro H; apply filter_all_id; intros r Hr.
  apply negb_true_iff, Z.eqb_neq; now apply H.
Qed.

Lemma delete_appended (x : Z) (e : EmployeeIn) (t : table) :
  (forall r, In r t -> id r <> x) ->
  delete_employee x (t ++ [mkOut x e]) = (Return {| deleted_id := x |}, t).
Proof.
  intro H; rewrite delete_employee_eq.
  rewrite (binds_id_in_use x (t ++ [mkOut x e]) (mkOut x e));
    [| apply in_or_app; right; now left | reflexivity].
  rewrite filter_app; cbn [id filter].
  rewrite Z.eqb_refl; cbn [negb].
  now rewrite filter_other_ids, app_nil_r.
Qed.

(** X1: once a create with a non-null [employee_no] has succeeded, a
    second create carrying the same [employee_no] is rejected by the unique
    index and leaves the table as the first create left it. *)
Theorem create_twice_same_no (e e' : EmployeeIn) (st st' : table)
        (out : EmployeeOut) (s : string) :
  create_employee e st = (Return out, st') ->
  employee_no e = Some s ->
  employee_no e' = Some s ->
  create_employee e' st' = (Raise unique_failed, st')
  /\ status (fst (create_employee e' st')) = 500.
Proof.
  intros Hc He He'.
  apply create_employee_inv in Hc as [_ [-> ->]].
  assert (E : create_employee e' (st ++ [mkOut (next_rowid st) e])
              = (Raise unique_failed, st ++ [mkOut (next_rowid st) e])).
  { rewrite create_employee_eq; unfold insert_conflict; rewrite He'.
    rewrite (proj2 (existsb_holds_no s _)); [reflexivity|].
    apply in_employee_nos; exists (mkOut (next_rowid st) e); split.
    - apply in_or_app; right; now left.
    - exact He. }
  now rewrite E.
Qed.

Lemma create_twice_same_no_witness :
  create_employee ben [mkOut 1 ben] = (Raise unique_failed, [mkOut 1 ben])
  /\ status (fst (create_employee ben [mkOut 1 ben])) = 500.
Proof.
  apply (create_twice_same_no ben ben [] [mkOut 1 ben] (mkOut 1 ben) "E-001");
    reflexivity.
Defined.

(** X2: deleting the id a create has just returned undoes the create: the
    table is again the one before the create. *)
Theorem create_then_delete (e : EmployeeIn) (st st' : table) (out : EmployeeOut) :
  create_employee e st = (Return out, st') ->
  delete_employee (id out) st' = (Return {| deleted_id := id out |}, st).
Proof.
  intro Hc; apply create_employee_inv in Hc as [_ [-> ->]]; cbn [id].
  apply delete_appended; intros r Hr; now apply next_rowid_fresh.
Qed.

Lemma create_then_delete_witness :
  delete_employee (id (mkOut 4 dan)) (three_rows ++ [mkOut 4 dan])
  = (Return {| deleted_id := id (mkOut 4 dan) |}, three_rows).
Proof.
  apply (create_then_delete dan three_rows (three_rows ++ [mkOut 4 dan]) (mkOut 4 dan)).
  reflexivity.
Defined.



(** X4: after a delete of an id [x] within the signed 64-bit range,
    get-by-id of [x] answers 404, whatever the table held before. *)
Theorem delete_then_get (x : Z) (st : table) :
  in_int64 x = true ->
  get_employee x (snd (delete_employee x st))
  = (Raise (HTTPException 404 "Employee not found"),
     snd (delete_employee x st))
  /\ status (fst (get_employee x (snd (delete_employee x st)))) = 404.
Proof.
  intro Hx.
  assert (E : get_employee x (snd (delete_employee x st))
              = (Raise (HTTPException 404 "Employee not found"),
                 snd (delete_employee x st))).
  { rewrite delete_employee_snd, (binds_id_in_range x st Hx).
    rewrite get_employee_eq, (binds_id_in_range x _ Hx).
    rewrite (proj2 (hd_filter_none _ _)); [reflexivity|].
    intros r Hr; apply filter_In in Hr as [_ Hr].
    now apply negb_true_iff in Hr. }
  now rewrite E.
Qed.

Lemma delete_then_get_witness :
  get_employee 2 (snd (delete_employee 2 three_rows))
  = (Raise (HTTPException 404 "Employee not found"),
     snd (delete_employee 2 three_rows))
  /\ status (fst (get_employee 2 (snd (delete_employee 2 three_rows)))) = 404.
Proof.
  apply (delete_then_get 2 three_rows).
  reflexivity.
Defined.

(** ** What update answers *)

Lemma update_map_idem (x : Z) (e : EmployeeIn) (t : table) :
  map (fun r => if id r =? x then set_values e r else r)
      (map (fun r => if id r =? x then set_values e r else r) t)
  = map (fun r => if id r =? x then set_values e r else r) t.
Proof.
  rewrite map_map; apply map_ext; intro r.
  destruct (id r =? x) eqn:E; cbn [set_values id]; now rewrite E.
Qed.

Lemma update_map_ids (x : Z) (e : EmployeeIn) (t : table) :
  map id (map (fun r => if id r =? x then set_values e r else r) t) = map id t.
Proof.
  rewrite map_map; apply map_ext; intro r.
  now destruct (id r =? x).
Qed.

Lemma update_conflict_after (x : Z) (e : EmployeeIn) (t : table) :
  update_conflict [id_eq x] e
    (map (fun r => if id r =? x then set_values e r else r) t)
  = update_conflict [id_eq x] e t.
Proof.
  unfold update_conflict.
  destruct (employee_no e) as [s|]; [|reflexivity].
  rewrite !filter_id_eq, !filter_id_neq, update_map_hits, update_map_frame.
  destruct (filter (fun r => id r =? x) t) as [|r [|r' l]]; reflexivity.
Qed.



(** X6: update never adds, removes or renumbers a row: the ids of the
    table, in order, are the same after any update as before it. *)
Theorem update_keeps_ids (x : Z) (e : EmployeeIn) (st : table) :
  map id (snd (update_employee x e st)) = map id st
  /\ List.length (snd (update_employee x e st)) = List.length st.
Proof.
  assert (E : map id (snd (update_employee x e st)) = map id st).
  { rewrite update_employee_snd.
    destruct (binds_id x st); [|reflexivity].
    destruct (update_conflict [id_eq x] e st); [reflexivity|].
    apply update_map_ids. }
  split; [exact E|].
  now rewrite <- (length_map id), E, length_map.
Qed.

(** X7: update is idempotent: repeating an update with the same id and the
    same input gives the same answer as the first time and leaves the table
    as the first update left it. *)
Theorem update_twice (x : Z) (e : EmployeeIn) (st : table) :
  update_employee x e (snd (update_employee x e st))
  = (fst (update_employee x e st), snd (update_employee x e st)).
Proof.
  rewrite update_employee_snd.
  destruct (binds_id x st) eqn:Hb.
  - destruct (update_conflict [id_eq x] e st) eqn:Hc.
    + rewrite update_employee_eq, Hb, Hc; reflexivity.
    + rewrite !update_employee_eq, binds_id_update, Hb.
      rewrite update_conflict_after, Hc; cbv zeta.
      rewrite update_map_idem.
      now destruct (hd_error _).
  - rewrite update_employee_eq, Hb; reflexivity.
Qed.

(** X8: update answers 404 exactly when the requested id is within the
    signed 64-bit range and no row has it. *)
Theorem update_not_found_iff (x : Z) (e : EmployeeIn) (st : table) :
  status (fst (update_employee x e st)) = 404
  <-> in_int64 x = true /\ forall r, In r st -> id r <> x.
Proof.
  split.
  - rewrite update_employee_eq.
    destruct (binds_id x st) eqn:Hb; [|discriminate].
    destruct (update_conflict [id_eq x] e st); [discriminate|].
    cbv zeta; rewrite update_map_hits, hd_map_set_values.
    destruct (hd_error (filter (fun r => id r =? x) st)) eqn:E; [discriminate|].
    intros _.
    assert (Hno : forall r, In r st -> id r <> x).
    { intros r Hr; apply Z.eqb_neq.
      now apply (proj1 (hd_filter_none _ _) E). }
    split; [|exact Hno].
    unfold binds_id in Hb.
    rewrite (proj2 (rowid_not_in_use x st) Hno), orb_false_r in Hb.
    exact Hb.
  - intros [Hx H].
    rewrite update_employee_eq, (binds_id_in_range x st Hx).
    rewrite update_conflict_missing by assumption.
    cbv zeta; rewrite update_map_hits, hd_map_set_values.
    rewrite (proj2 (hd_filter_none _ _)); [reflexivity|].
    intros r Hr; apply Z.eqb_neq; now apply H.
Qed.

(** X9: a write that does not answer 200 has written nothing: after a
    create or an update that raised, the table is the one before. *)
Theorem failed_write_keeps_table (x : Z) (e : EmployeeIn) (st : table) :
  (status (fst (create_employee e st)) <> 200 ->
   snd (create_employee e st) = st)
  /\ (status (fst (update_employee x e st)) <> 200 ->
      snd (update_employee x e st) = st).
Proof.
  split.
  - rewrite create_employee_eq.
    destruct (insert_conflict e st); [reflexivity|].
    intro H; now contradiction H.
  - rewrite update_employee_eq.
    destruct (binds_id x st); [|reflexivity].
    destruct (update_conflict [id_eq x] e st); [reflexivity|].
    cbv zeta; rewrite update_map_hits, hd_map_set_values.
    destruct (hd_error (filter (fun r => id r =? x) st)) eqn:E.
    + intro H; now contradiction H.
    + intros _; cbn [snd]; apply update_map_missing.
      intros r Hr; apply Z.eqb_neq.
      now apply (proj1 (hd_filter_none _ _) E).
Qed.

(** ** Reads of other ids *)

Lemma get_employee_fst (y : Z) (t : table) :
  fst (get_employee y t)
  = if binds_id y t then
      match hd_error (filter (fun r => id r =? y) t) with
      | Some r => Return (dict r)
      | None => Raise (HTTPException 404 "Employee not found")
      end
    else Raise overflow.
Proof.
  rewrite get_employee_eq.
  destruct (binds_id y t); [now destruct (hd_error _) | reflexivity].
Qed.

Lemma update_map_other (x y : Z) (e : EmployeeIn) (t : table) :
  y <> x ->
  filter (fun r => id r =? y)
         (map (fun r => if id r =? x then set_values e r else r) t)
  = filter (fun r => id r =? y) t.
Proof.
  intro Hne; induction t as [|r t IH]; [reflexivity|].
  cbn [map filter]; rewrite IH.
  destruct (id r =? x) eqn:Ex; [|reflexivity].
  apply Z.eqb_eq in Ex; cbn [set_values id].
  assert (Ey : (id r =? y) = false) by (apply Z.eqb_neq; lia).
  now rewrite Ey.
Qed.

Lemma delete_filter_other (x y : Z) (t : table) :
  y <> x ->
  filter (fun r => id r =? y) (filter (fun r => negb (id r =? x)) t)
  = filter (fun r => id r =? y) t.
Proof.
  intro Hne; induction t as [|r t IH]; [reflexivity|].
  cbn [filter].
  destruct (id r =? x) eqn:Ex; cbn [negb filter]; rewrite IH.
  - apply Z.eqb_eq in Ex.
    assert (Ey : (id r =? y) = false) by (apply Z.eqb_neq; lia).
    now rewrite Ey.
  - reflexivity.
Qed.

(** X10: an update or a delete of id [x] does not change what get-by-id
    answers for any other id [y]. *)
Theorem get_other_id_unchanged (x y : Z) (e : EmployeeIn) (st : table) :
  y <> x ->
  fst (get_employee y (snd (update_employee x e st))) = fst (get_employee y st)
  /\ fst (get_employee y (snd (delete_employee x st))) = fst (get_employee y st).
Proof.
  intro Hne; split.
  - rewrite update_employee_snd.
    destruct (binds_id x st); [|reflexivity].
    destruct (update_conflict [id_eq x] e st); [reflexivity|].
    now rewrite !get_employee_fst, binds_id_update, update_map_other.
  - rewrite delete_employee_snd.
    destruct (binds_id x st); [|reflexivity].
    rewrite !get_employee_fst; unfold binds_id.
    now rewrite rowid_in_use_delete, delete_filter_other.
Qed.

Lemma get_other_id_unchanged_witness :
  fst (get_employee 1 (snd (update_employee 2 dan three_rows)))
  = fst (get_employee 1 three_rows)
  /\ fst (get_employee 1 (snd (delete_employee 2 three_rows)))
     = fst (get_employee 1 three_rows).
Proof.
  apply (get_other_id_unchanged 2 1 dan three_rows); lia.
Defined.

(** X11: a create does not change what get-by-id answers for an id that
    was already in the table. *)
Theorem get_existing_after_create (y : Z) (e : EmployeeIn) (st : table) :
  (exists r, In r st /\ id r = y) ->
  fst (get_employee y (snd (create_employee e st))) = fst (get_employee y st).
Proof.
  intros [r [Hr Hy]].
  rewrite create_employee_eq.
  destruct (insert_conflict e st); [reflexivity|].
  cbn [snd]; rewrite !get_employee_fst.
  rewrite (binds_id_in_use y st r Hr Hy).
  rewrite (binds_id_in_use y _ r (in_or_app _ _ _ (or_introl Hr)) Hy).
  rewrite filter_app; cbn [filter id].
  assert (E : (next_rowid st =? y) = false).
  { apply Z.eqb_neq; pose proof (next_rowid_fresh st r Hr); lia. }
  now rewrite E, app_nil_r.
Qed.

Lemma get_existing_after_create_witness :
  fst (get_employee 2 (snd (create_employee dan three_rows)))
  = fst (get_employee 2 three_rows).
Proof.
  apply (get_existing_after_create 2 dan three_rows).
  exists (mkOut 2 ben); split; [right; now left | reflexivity].
Defined.

(** ** More on listing *)



(** X14: raising a non-negative limit, within the signed 64-bit range,
    only appends: the listing with limit [n] is an initial segment of the
    listing with limit [m >= n] under the same branch filter. *)
Theorem list_employees_limit_prefix (b : option string) (n m : Z) (st : table) :
  0 <= n -> n <= m -> in_int64 m = true ->
  exists rows rest,
    list_employees_request b (Some n) st = (Return rows, st)
    /\ list_employees_request b (Some m) st = (Return (rows ++ rest), st).
Proof.
  intros Hn Hm Hr.
  assert (Hrn : in_int64 n = true).
  { apply in_int64_iff in Hr; apply in_int64_iff.
    assert (- 2 ^ 63 <= 0) by (vm_compute; discriminate).
    lia. }
  unfold list_employees_request; rewrite !list_employees_eq.
  cbn [effective_limit]; rewrite Hr, Hrn; unfold sql_limit.
  destruct (n <? 0) eqn:En; [apply Z.ltb_lt in En; lia|].
  destruct (m <? 0) eqn:Em; [apply Z.ltb_lt in Em; lia|].
  set (l := filter _ st).
  exists (map dict (firstn (Z.to_nat n) l)),
         (map dict (skipn (Z.to_nat n) (firstn (Z.to_nat m) l))).
  split; [reflexivity|].
  do 2 f_equal.
  rewrite <- map_app; f_equal.
  rewrite <- (firstn_skipn (Z.to_nat n) (firstn (Z.to_nat m) l)) at 1.
  f_equal; rewrite firstn_firstn; f_equal; lia.
Qed.

Lemma list_employees_limit_prefix_witness :
  exists rows rest,
    list_employees_request (Some "North") (Some 1) three_rows
    = (Return rows, three_rows)
    /\ list_employees_request (Some "North") (Some 5) three_rows
       = (Return (rows ++ rest), three_rows).
Proof.
  apply (list_employees_limit_prefix (Some "North") 1 5 three_rows);
    [lia | lia | reflexivity].
Defined.



(** X16: after a delete of id [x], whatever a listing returns, under any
    branch and limit, contains no record with id [x]. *)
Theorem list_after_delete (x : Z) (b : option string) (limit_ : option Z)
        (st st' : table) (rows : list EmployeeOut) :
  list_employees_request b limit_ (snd (delete_employee x st)) = (Return rows, st') ->
  Forall (fun out => id out <> x) rows.
Proof.
  unfold list_employees_request; rewrite list_employees_eq.
  destruct (in_int64 (effective_limit limit_)); [|discriminate].
  intro H; injection H as <- _.
  apply Forall_forall; intros out Hout.
  apply in_map_dict in Hout as [r [Hr ->]]; rewrite id_dict.
  apply (in_sql_limit (Some (effective_limit limit_))) in Hr.
  apply filter_In in Hr as [Hr _].
  rewrite delete_employee_snd in Hr.
  destruct (binds_id x st) eqn:Hb.
  - apply filter_In in Hr as [_ Hr].
    apply negb_true_iff in Hr; now apply Z.eqb_neq.
  - unfold binds_id in Hb; apply orb_false_iff in Hb as [_ Hb].
    now apply (proj1 (rowid_not_in_use x st) Hb).
Qed.

Lemma list_after_delete_witness :
  list_employees_request None None (snd (delete_employee 2 three_rows))
  = (Return [mkOut 1 ana; mkOut 3 cora], [mkOut 1 ana; mkOut 3 cora])
  /\ Forall (fun out => id out <> 2) [mkOut 1 ana; mkOut 3 cora].
Proof.
  split; [reflexivity|].
  apply (list_after_delete 2 None None three_rows
           [mkOut 1 ana; mkOut 3 cora] [mkOut 1 ana; mkOut 3 cora]).
  reflexivity.
Defined.

(** ** The unique index across handlers *)

(** X17: a hard delete frees the [employee_no]: on a table that satisfies
    the schema, once the row holding a number is deleted, a create carrying
    that number succeeds. *)
Theorem delete_frees_employee_no (e : EmployeeIn) (st : table)
        (r : EmployeeOut) :
  table_ok st -> In r st -> employee_no e = employee_no r ->
  exists out,
    create_employee e (snd (delete_employee (id r) st))
    = (Return out, snd (delete_employee (id r) st) ++ [out])
    /\ emp out = e.
Proof.
  intros Hok Hr He.
  rewrite delete_employee_snd, (binds_id_in_use (id r) st r Hr eq_refl).
  rewrite create_employee_eq.
  rewrite (proj2 (insert_conflict_false e _)).
  - eexists; split; reflexivity.
  - apply unused_besides_holder; [apply (ok_unique_no Hok) | assumption..].
Qed.

Lemma delete_frees_employee_no_witness :
  exists out,
    create_employee ben (snd (delete_employee (id (mkOut 2 ben)) three_rows))
    = (Return out, snd (delete_employee (id (mkOut 2 ben)) three_rows) ++ [out])
    /\ emp out = ben.
Proof.
  apply (delete_frees_employee_no ben three_rows (mkOut 2 ben)).
  - exact three_rows_ok.
  - right; now left.
  - reflexivity.
Defined.

(** X18: update is subject to the unique index like create: when row [x]
    exists and another row holds the [employee_no] of the input, the update
    raises the engine's integrity error (a 500) and changes nothing. *)
Theorem update_employee_duplicate (x : Z) (e : EmployeeIn) (st : table)
        (r r' : EmployeeOut) (s : string) :
  In r st -> id r = x ->
  In r' st -> id r' <> x -> employee_no r' = Some s ->
  employee_no e = Some s ->
  update_employee x e st = (Raise unique_failed, st)
  /\ status (fst (update_employee x e st)) = 500.
Proof.
  intros Hr Hx Hr' Hx' Hs He.
  assert (Hc : update_conflict [id_eq x] e st = true).
  { unfold update_conflict; rewrite He, filter_id_eq, filter_id_neq.
    destruct (filter (fun r0 => id r0 =? x) st) as [|a [|b l]] eqn:E.
    - exfalso.
      assert (Hin : In r (filter (fun r0 => id r0 =? x) st))
        by (apply filter_In; split; [assumption | now apply Z.eqb_eq]).
      now rewrite E in Hin.
    - apply existsb_exists; exists r'; split.
      + apply filter_In; split; [assumption|].
        apply negb_true_iff; now apply Z.eqb_neq.
      + now apply holds_no_iff.
    - reflexivity. }
  assert (E : update_employee x e st = (Raise unique_failed, st))
    by (now rewrite update_employee_eq, (binds_id_in_use x st r Hr Hx), Hc).
  now rewrite E.
Qed.

Lemma update_employee_duplicate_witness :
  update_employee 3 ben three_rows = (Raise unique_failed, three_rows)
  /\ status (fst (update_employee 3 ben three_rows)) = 500.
Proof.
  apply (update_employee_duplicate 3 ben three_rows
           (mkOut 3 cora) (mkOut 2 ben) "E-001").
  - right; right; now left.
  - reflexivity.
  - right; now left.
  - simpl; lia.
  - reflexivity.
  - reflexivity.
Defined.



(** ** Invariants, row counts and fresh ids *)

(** X21: every write keeps the schema: if ids are pairwise distinct and
    positive and non-null [employee_no]s pairwise distinct before a create,
    an update or a delete, they are so after it, whether it succeeded or
    not. *)
Theorem writes_keep_schema (x : Z) (e : EmployeeIn) (st : table) :
  table_ok st ->
  table_ok (snd (create_employee e st))
  /\ table_ok (snd (update_employee x e st))
  /\ table_ok (snd (delete_employee x st)).
Proof.
  intro Hok; split; [|split].
  - now apply create_keeps_ok.
  - now apply update_keeps_ok.
  - now apply delete_keeps_ok.
Qed.

Lemma writes_keep_schema_witness :
  table_ok (snd (create_employee dan three_rows))
  /\ table_ok (snd (update_employee 2 dan three_rows))
  /\ table_ok (snd (delete_employee 2 three_rows)).
Proof.
  apply (writes_keep_schema 2 dan three_rows).
  exact three_rows_ok.
Defined.

(** X24: a delete of an id no row has leaves the table exactly as it was;
    on a table that satisfies the schema a delete of an id some row has
    removes exactly one row. *)
Theorem delete_employee_count (x : Z) (st : table) :
  ((forall r, In r st -> id r <> x) -> snd (delete_employee x st) = st)
  /\ (table_ok st -> (exists r, In r st /\ id r = x) ->
      S (List.length (snd (delete_employee x st))) = List.length st).
Proof.
  rewrite delete_employee_snd; split.
  - intro H; destruct (binds_id x st); [now apply filter_other_ids | reflexivity].
  - intros Hok [r [Hr <-]].
    rewrite (binds_id_in_use (id r) st r Hr eq_refl).
    pose proof (filter_primary_key st r (ok_primary_key Hok) Hr) as Hhit.
    pose proof (filter_length (fun r' => id r' =? id r) st) as Hlen.
    rewrite Hhit in Hlen; cbn [List.length] in Hlen.
    lia.
Qed.


